(** * Museum-photograph dataset statistics: a model of [analyze_dataset.py]

The script loads one table with pandas and derives ten report tables from
it.  This development embeds the reducers of the script, together with the
part of Python and pandas they rest on, and proves the properties the
specification states about them.

Layout:
- [Py]: the Python string methods the script calls;
- cells, data frames and exceptions;
- [Pd]: the pandas operations the script calls;
- the reducers of [analyze_dataset.py], named as in the source;
- [main] over an explicit file store;
- the theorems. *)

From Stdlib Require Import ZArith String Ascii List Permutation Sorted Lia.
From Stdlib Require Import Floats DecimalString.
From stdpp Require Import base decidable list strings gmap.

Local Open Scope string_scope.
Local Open Scope list_scope.

(** ** Python strings

A [str] is modelled by [string]; a character is a code point below 256. *)

Module Py.

(** [s.startswith(p)] *)
Definition startswith (s p : string) : bool := String.prefix p s.

(** [s.endswith(p)] *)
Definition endswith (s p : string) : bool :=
  String.prefix (String.rev p) (String.rev s).

(** [c in s] for a one-character [c] *)
Fixpoint contains (c : ascii) (s : string) : bool :=
  match s with
  | EmptyString => false
  | String d s' => Ascii.eqb d c || contains c s'
  end.

(** [s.replace(old, new)] for a non-empty [old]: the occurrences of [old]
    are found from left to right and do not overlap.  [skip] counts the
    characters of a matched occurrence that are still to be dropped. *)
Fixpoint replace_from (skip : nat) (old new s : string) : string :=
  match s with
  | EmptyString => EmptyString
  | String c s' =>
      match skip with
      | S k => replace_from k old new s'
      | O =>
          if String.prefix old s
          then new ++ replace_from (String.length old - 1) old new s'
          else String c (replace_from 0 old new s')
      end
  end.

Definition replace (s old new : string) : string := replace_from 0 old new s.

(** [s.split(sep)] for a one-character [sep]; never the empty list. *)
Fixpoint split (sep : ascii) (s : string) : list string :=
  match s with
  | EmptyString => [EmptyString]
  | String c s' =>
      if Ascii.eqb c sep then EmptyString :: split sep s'
      else match split sep s' with
           | seg :: rest => String c seg :: rest
           | [] => [String c EmptyString]
           end
  end.

(** [c.isspace()] on the code points below 256. *)
Definition isspace (c : ascii) : bool :=
  let n := nat_of_ascii c in
  (Nat.leb 9 n && Nat.leb n 13) || (Nat.leb 28 n && Nat.leb n 32)
  || Nat.eqb n 133 || Nat.eqb n 160.

Fixpoint lstrip (s : string) : string :=
  match s with
  | String c s' => if isspace c then lstrip s' else s
  | EmptyString => EmptyString
  end.

Definition rstrip (s : string) : string := String.rev (lstrip (String.rev s)).

(** [s.strip()] *)
Definition strip (s : string) : string := rstrip (lstrip s).

(** [str(n)] for an [int] *)
Definition str_int (z : Z) : string := NilZero.string_of_int (Z.to_int z).

End Py.

Example replace_ex1 : Py.replace "has_hat" "has_" "" = "hat".
Proof. reflexivity. Qed.
Example replace_ex2 : Py.replace "has_has_x" "has_" "" = "x".
Proof. reflexivity. Qed.
Example split_ex : Py.split "|" " A| B |" = [" A"; " B "; ""].
Proof. reflexivity. Qed.
Example strip_ex : Py.strip "  A b  " = "A b".
Proof. reflexivity. Qed.
Example str_ex : Py.str_int (-120) = "-120" /\ Py.str_int 0 = "0".
Proof. split; reflexivity. Qed.
Example ends_ex : Py.endswith "has_percent" "_percent" = true.
Proof. reflexivity. Qed.

(** ** Cells, exceptions and data frames *)

(** A cell of a table.  [NaN] is the missing marker; [Int] is a value of an
    [int64] column (arithmetic on it is done in [Z]: the years and counts of
    the data set are far from the ends of the [int64] range); [Flt] is a
    value of a [float64] column and is never a floating-point NaN, which is
    the missing marker itself (see [flt]). *)
Inductive value : Type :=
  | NaN
  | Str (s : string)
  | Int (z : Z)
  | Flt (x : float).

#[global] Instance float_eq_dec : EqDecision float.
Proof.
  intros x y. destruct (PrimFloat.Leibniz.eqb x y) eqn:E.
  - left. by apply FloatAxioms.Leibniz.eqb_spec.
  - right. intros H. apply FloatAxioms.Leibniz.eqb_spec in H. congruence.
Defined.

#[global] Instance value_eq_dec : EqDecision value.
Proof. solve_decision. Defined.

(** A float result stored in a cell: a floating-point NaN is the missing
    marker. *)
Definition flt (x : float) : value := if PrimFloat.is_nan x then NaN else Flt x.

Definition is_str (v : value) : bool := match v with Str _ => true | _ => false end.

(** The exceptions the script can end with. *)
Inductive exn : Type :=
  | KeyError (k : string)
  | ValueError
  | TypeError
  | OverflowError
  | FileNotFoundError (path : string)
  | FileExistsError (path : string)
  | IsADirectoryError (path : string).

Inductive result (A : Type) : Type :=
  | Ok (a : A)
  | Raise (e : exn).
Arguments Ok {A} a.
Arguments Raise {A} e.

#[global] Instance result_bind : MBind result :=
  λ A B f m, match m with Ok a => f a | Raise e => Raise e end.
#[global] Instance result_ret : MRet result := λ A a, Ok a.

Definition is_ok {A} (r : result A) : bool :=
  match r with Ok _ => true | Raise _ => false end.

(** A [pandas.DataFrame], column by column as pandas stores it: the number
    of rows [len(df)] and the named columns in their order.  The row labels
    are not modelled: every report resets them. *)
Record DataFrame : Type := mkDF {
  nrows : nat;
  cols : list (string * list value)
}.

(** A frame as the loader produces it: every column has [len(df)] cells, the
    column names differ, and no cell is a floating-point NaN. *)
Definition cell_ok (v : value) : bool :=
  match v with Flt x => negb (PrimFloat.is_nan x) | _ => true end.

Definition wf (df : DataFrame) : Prop :=
  Forall (λ c, length c.2 = nrows df ∧ forallb cell_ok c.2 = true) (cols df)
  ∧ NoDup (cols df).*1.

(** ** IEEE 754 and numpy arithmetic on [float64] *)

Module Np.

(** The conversion of an [int64] to [float64]. *)
Definition of_int (z : Z) : float :=
  if (z <? 0)%Z then PrimFloat.opp (PrimFloat.of_uint63 (Uint63.of_Z (- z)))
  else PrimFloat.of_uint63 (Uint63.of_Z z).

(** [numpy.rint]: the nearest integer, ties to even. *)
Definition rint (x : float) : float :=
  let big := 0x1p52%float in
  if PrimFloat.ltb (PrimFloat.abs x) big then
    if PrimFloat.ltb x 0
    then PrimFloat.opp (PrimFloat.sub (PrimFloat.add (PrimFloat.opp x) big) big)
    else PrimFloat.sub (PrimFloat.add x big) big
  else x.

(** [numpy.round(x, 2)]: scale by [10**2], [rint], scale back. *)
Definition round2 (x : float) : float :=
  PrimFloat.div (rint (PrimFloat.mul x 100)) 100.

(** The exact value [m * 2^e] of a finite float, as a signed mantissa and
    an exponent; [None] for an infinity (and for a NaN). *)
Definition exact (x : float) : option (Z * Z) :=
  match Prim2SF x with
  | S754_zero _ => Some (0, 0)%Z
  | S754_finite s m e => Some (if s then Z.neg m else Z.pos m, e)
  | _ => None
  end.

(** [floor(x / d)] for a positive integer [d], exactly. *)
Definition floor_div (x : float) (d : Z) : option Z :=
  match exact x with
  | Some (m, e) =>
      Some (if (0 <=? e)%Z then (m * 2 ^ e) / d else m / (d * 2 ^ (- e)))%Z
  | None => None
  end.

(** The integer part of [x] (rounding toward zero), exactly. *)
Definition trunc (x : float) : option Z :=
  match exact x with
  | Some (m, e) =>
      Some (if (0 <=? e)%Z then m * 2 ^ e else Z.quot m (2 ^ (- e)))%Z
  | None => None
  end.

(** The larger and the smaller of two floats, neither of them a NaN. *)
Definition fmax (x y : float) : float := if PrimFloat.ltb x y then y else x.
Definition fmin (x y : float) : float := if PrimFloat.ltb y x then y else x.

End Np.

Example round2_ex :
  Np.round2 (PrimFloat.mul (PrimFloat.div (Np.of_int 3) (Np.of_int 10)) 100) = 30%float.
Proof. reflexivity. Qed.
Example floor_div_ex :
  Np.floor_div 1929%float 10 = Some 192%Z ∧ Np.floor_div (-5)%float 10 = Some (-1)%Z.
Proof. split; reflexivity. Qed.

(** ** Counting in first-seen order

[collections.Counter], a pandas hash table and a [dict] filled in a loop
all keep their keys in the order in which they were first inserted. *)

Section Counting.
  Context {K : Type} `{EqDecision K}.

(** One more occurrence of [k]; a key not seen before goes last. *)
Fixpoint count_key (k : K) (acc : list (K * nat)) : list (K * nat) :=
  match acc with
  | [] => [(k, 1)]
  | (k', n) :: acc' =>
      if decide (k = k') then (k', S n) :: acc'
      else (k', n) :: count_key k acc'
  end.

(** [Counter(l).items()] *)
Definition Counter (l : list K) : list (K * nat) :=
  foldl (λ acc k, count_key k acc) [] l.

(** [d[k] = v] on a [dict]: an existing key keeps its place. *)
Fixpoint dict_set {V : Type} (k : K) (v : V) (d : list (K * V)) : list (K * V) :=
  match d with
  | [] => [(k, v)]
  | (k', v') :: d' =>
      if decide (k = k') then (k', v) :: d' else (k', v') :: dict_set k v d'
  end.

(** [d.get(k)] on a [dict] or on the named columns of a frame. *)
Fixpoint assoc {V : Type} (k : K) (d : list (K * V)) : option V :=
  match d with
  | [] => None
  | (k', v) :: d' => if decide (k = k') then Some v else assoc k d'
  end.

(** The number of occurrences of [k] in [l]. *)
Definition occurrences (k : K) (l : list K) : nat :=
  length (filter (λ x, x = k) l).

End Counting.

(** ** pandas *)

(** The parts of the Python and numpy run time whose results the script's
    source does not determine: the sorting kernel behind [sort_values] (the
    script leaves [kind] at its default, quicksort), the reductions behind
    [mean] and [median], and the conversions between numbers and text. *)
Record kernels : Type := mkKernels {
  argsort : list value → list nat;
  nanmean : list float → float;
  nanmedian : list float → float;
  float_str : float → string;
  int_of_str : string → option Z
}.

Module Pd.

(** [pandas.isna] on a cell *)
Definition isna (v : value) : bool :=
  match v with NaN => true | _ => false end.
Definition notna (v : value) : bool := negb (isna v).

(** [Series.dropna()] *)
Definition dropna (l : list value) : list value := List.filter notna l.

(** [len(df)], [df.columns] and [df[c]] *)
Definition len (df : DataFrame) : nat := nrows df.
Definition columns (df : DataFrame) : list string := (cols df).*1.
Definition getitem (df : DataFrame) (c : string) : result (list value) :=
  match assoc c (cols df) with
  | Some l => Ok l
  | None => Raise (KeyError c)
  end.

(** The cells of column [c], for statements about a report: no cell when
    the column is absent. *)
Definition column (df : DataFrame) (c : string) : list value :=
  default [] (assoc c (cols df)).

(** The rows of a frame, each in column order. *)
Definition rows (df : DataFrame) : list (list value) :=
  (λ i, (λ c : string * list value, default NaN (c.2 !! i)) <$> cols df)
    <$> seq 0 (nrows df).

(** [a[idx]] (numpy's [take]): the elements at the positions [idx]. *)
Definition take {A} (idx : list nat) (l : list A) : list A :=
  omap (λ i, l !! i) idx.

(** [Series.nunique()]: the number of distinct non-missing values. *)
Definition nunique (l : list value) : nat := length (Counter (dropna l)).

(** The hash-table pass of [value_counts]: the distinct values in
    first-seen order with their counts; with [dropna=False] the missing
    marker is a key like any other. *)
Definition value_counts_arraylike (drop : bool) (l : list value)
  : list (value * nat) :=
  Counter (if drop then dropna l else l).

Section Sorting.
  Variable np : kernels.

(** [pandas.core.sorting.nargsort] with [na_position='last']: the
    missing keys are set aside, the others are sorted by numpy; for a
    descending order the keys are reversed before the sort and the
    result is reversed after it. *)
Definition nargsort (ascending : bool) (items : list value) : list nat :=
  let idx := seq 0 (length items) in
  let non_nans := dropna items in
  let non_nan_idx := List.filter (λ i, notna (default NaN (items !! i))) idx in
  let nan_idx := List.filter (λ i, isna (default NaN (items !! i))) idx in
  let non_nans := if ascending then non_nans else rev non_nans in
  let non_nan_idx := if ascending then non_nan_idx else rev non_nan_idx in
  let indexer := take (argsort np non_nans) non_nan_idx in
  let indexer := if ascending then indexer else rev indexer in
  indexer ++ nan_idx.

(** [df.sort_values(by_, ascending=...).reset_index(drop=True)] *)
Definition sort_values (by_ : string) (ascending : bool) (df : DataFrame)
  : result DataFrame :=
  keys ← getitem df by_;
  let indexer := nargsort ascending keys in
  Ok (mkDF (nrows df) ((λ c, (c.1, take indexer c.2)) <$> cols df)).

(** A [Series] with its index, as pairs of a label and a value:
    [s.sort_values(ascending=False)] and [s.sort_index()]. *)
Definition series_sort_values (ascending : bool) (s : list (value * value))
  : list (value * value) :=
  take (nargsort ascending s.*2) s.
Definition series_sort_index (s : list (value * value)) : list (value * value) :=
  take (nargsort true s.*1) s.

(** [Series.value_counts(dropna=...)]: the counts, sorted by descending
    count. *)
Definition value_counts (drop : bool) (l : list value) : list (value * value) :=
  series_sort_values false
    ((λ kn : value * nat, (kn.1, Int (Z.of_nat kn.2)))
       <$> value_counts_arraylike drop l).

End Sorting.

(** [s.rename_axis(a).reset_index(name=b)]: the index becomes column [a],
    the values column [b]. *)
Definition reset_index (a b : string) (s : list (value * value)) : DataFrame :=
  mkDF (length s) [(a, s.*1); (b, s.*2)].

(** [DataFrame.from_records(recs)] for records with the same keys; no
    record gives a frame without columns. *)
Definition from_records (recs : list (list (string * value))) : DataFrame :=
  match recs with
  | [] => mkDF 0 []
  | r :: _ =>
      mkDF (length recs)
        ((λ c, (c, (λ r', default NaN (assoc c r')) <$> recs)) <$> r.*1)
  end.

(** [df.assign(name=cells)] *)
Definition assign (name : string) (cells : list value) (df : DataFrame)
  : DataFrame :=
  mkDF (nrows df) (dict_set name cells (cols df)).

End Pd.

Arguments Pd.take {A} idx l : simpl never.
Arguments Pd.nargsort np ascending items : simpl never.

(** ** The reducers of [analyze_dataset.py] *)

Section Reducers.
  Variable np : kernels.

(** The value of a numeric cell as a [float64]. *)
Definition as_float (v : value) : float :=
  match v with
  | Int z => Np.of_int z
  | Flt x => x
  | _ => PrimFloat.nan
  end.

(** [(count / total * 100).round(2)] on one cell of an integer column. *)
Definition percentage (total : nat) (count : value) : value :=
  flt (Np.round2
         (PrimFloat.mul
            (PrimFloat.div (as_float count) (Np.of_int (Z.of_nat total))) 100)).

(** [str(v)] for a cell that is not missing. *)
Definition py_str (v : value) : string :=
  match v with
  | Str s => s
  | Int z => Py.str_int z
  | Flt x => float_str np x
  | NaN => "nan"
  end.

(** [int(v)] *)
Definition py_int (v : value) : result Z :=
  match v with
  | Int z => Ok z
  | Flt x => match Np.trunc x with Some z => Ok z | None => Raise OverflowError end
  | NaN => Raise ValueError
  | Str s => match int_of_str np s with Some z => Ok z | None => Raise ValueError end
  end.

(** The order of two cells of one column. *)
Definition value_ltb (a b : value) : bool :=
  match a, b with
  | Int x, Int y => (x <? y)%Z
  | Flt x, Flt y => PrimFloat.ltb x y
  | Int x, Flt y => PrimFloat.ltb (Np.of_int x) y
  | Flt x, Int y => PrimFloat.ltb x (Np.of_int y)
  | Str s, Str t => String.ltb s t
  | _, _ => false
  end.

(** [Series.min()] and [Series.max()]: the missing cells are skipped, no
    cell left gives the missing marker, and text cannot be compared with
    the missing marker. *)
Definition reduce (better : value → value → bool) (l : list value) : result value :=
  if existsb is_str l && negb (forallb is_str l) then Raise TypeError
  else Ok (foldl (λ acc v, match acc with
                           | NaN => v
                           | _ => if better v acc then v else acc
                           end) NaN (Pd.dropna l)).
Definition series_min : list value → result value := reduce value_ltb.
Definition series_max : list value → result value := reduce (flip value_ltb).

Definition analyze_gender (df : DataFrame) : result DataFrame :=
  let total := Pd.len df in
  gender ← Pd.getitem df "gender";
  let counts := Pd.value_counts np false gender in
  let out := Pd.reset_index "gender" "count" counts in
  count ← Pd.getitem out "count";
  Ok (Pd.assign "percentage" (percentage total <$> count) out).

(** The segments one cell of a multi-valued column contributes: the body
    of the loop in [analyze_nationality] and [analyze_artists]. *)
Definition segments (v : value) : list string :=
  if Py.contains "|" (py_str v)
  then Py.strip <$> Py.split "|" (py_str v)
  else [Py.strip (py_str v)].

Definition count_record (label : string) (kv : string * nat)
  : list (string * value) :=
  [(label, Str kv.1); ("count", Int (Z.of_nat kv.2))].

Definition analyze_nationality (df : DataFrame) : result DataFrame :=
  origin ← Pd.getitem df "origin";
  let all_origins := concat (segments <$> Pd.dropna origin) in
  let origin_counts := Counter all_origins in
  Pd.sort_values np "count" false
    (Pd.from_records (count_record "origin" <$> origin_counts)).

Definition analyze_objects (df : DataFrame) : result DataFrame :=
  let object_columns :=
    List.filter (λ col, Py.startswith col "has_") (Pd.columns df) in
  object_counts ←
    foldl (λ acc col,
             object_counts ← acc;
             let object_name := Py.replace col "has_" "" in
             cells ← Pd.getitem df col;
             let count := length (Pd.dropna cells) in
             Ok (if (0 <? count)%nat
                 then dict_set object_name count object_counts
                 else object_counts))
          (Ok []) object_columns;
  let recs := Pd.from_records (count_record "object" <$> object_counts) in
  count ← Pd.getitem recs "count";
  Pd.sort_values np "count" false
    (Pd.assign "percentage" (percentage (Pd.len df) <$> count) recs).

Definition analyze_artists (df : DataFrame) : result DataFrame :=
  artist_name ← Pd.getitem df "artist_name";
  let all_artists := concat (segments <$> Pd.dropna artist_name) in
  let artist_counts := Counter all_artists in
  Pd.sort_values np "count" false
    (Pd.from_records (count_record "artist_name" <$> artist_counts)).

(** [(year // 10 * 10).astype(int)] on one cell; on a float the floor
    division is exact, and an infinity is cast to the least [int64]. *)
Definition decade (year : value) : result Z :=
  match year with
  | Int y => Ok (y / 10 * 10)%Z
  | Flt x => Ok (match Np.floor_div x 10 with
                 | Some q => q * 10
                 | None => - 2 ^ 63
                 end)%Z
  | NaN => Ok (- 2 ^ 63)%Z
  | Str _ => Raise TypeError
  end.

Definition analyze_temporal (df : DataFrame) : result DataFrame :=
  creation_year ← Pd.getitem df "creation_year";
  let years := Pd.dropna creation_year in
  decades ← mapM decade years;
  let decade_counts :=
    Pd.series_sort_index np (Pd.value_counts np true (Int <$> decades)) in
  Ok (Pd.reset_index "decade" "count" decade_counts).

Definition analyze_work_types (df : DataFrame) : result DataFrame :=
  work_type ← Pd.getitem df "work_type";
  let counts := Pd.value_counts np false work_type in
  let out := Pd.reset_index "work_type" "count" counts in
  count ← Pd.getitem out "count";
  Ok (Pd.assign "percentage" (percentage (Pd.len df) <$> count) out).

(** [df.groupby('artist_name')]: the distinct keys that are not missing
    (the default is [dropna=True]), in sorted order. *)
Definition group_keys (keys : list value) : list value :=
  let uniques := (Counter (Pd.dropna keys)).*1 in
  Pd.take (argsort np uniques) uniques.

(** The cells of [cells] in the rows whose key is [k]. *)
Definition group_cells (keys cells : list value) (k : value) : list value :=
  (List.filter (λ kc : value * value, bool_decide (kc.1 = k)) (zip keys cells)).*2.

(** The aggregations ['first'] (the first cell that is not missing) and
    ['count'] (the number of cells that are not missing). *)
Definition agg_first (cells : list value) : value :=
  default NaN (head (Pd.dropna cells)).
Definition agg_count (cells : list value) : value :=
  Int (Z.of_nat (length (Pd.dropna cells))).

Definition analyze_museum_collection (df : DataFrame) : result DataFrame :=
  artist_name ← Pd.getitem df "artist_name";
  works ← Pd.getitem df "works_in_museum";
  object_id ← Pd.getitem df "object_id";
  let keys := group_keys artist_name in
  let grouped :=
    mkDF (length keys)
      [("artist_name", keys);
       ("works_in_museum", (λ k, agg_first (group_cells artist_name works k)) <$> keys);
       ("in_dataset_count", (λ k, agg_count (group_cells artist_name object_id k)) <$> keys)] in
  Pd.sort_values np "works_in_museum" false grouped.

(** The label [analyze_object_percentages] derives from a column name. *)
Definition coverage_name (col : string) : string :=
  Py.replace (Py.replace col "_percent" "") "has_" "".

(** The floats of a numeric column without its missing cells. *)
Definition numeric (values : list value) : result (list float) :=
  mapM (λ v, match v with
             | Str _ => Raise TypeError
             | _ => Ok (as_float v)
             end) values.

Definition analyze_object_percentages (df : DataFrame) : result DataFrame :=
  let percent_columns :=
    List.filter (λ col, Py.endswith col "_percent") (Pd.columns df) in
  coverage_stats ←
    foldl (λ acc col,
             coverage_stats ← acc;
             let object_name := coverage_name col in
             cells ← Pd.getitem df col;
             let values := Pd.dropna cells in
             if (0 <? length values)%nat then
               xs ← numeric values;
               mx ← series_max values;
               Ok (dict_set object_name
                     [("object", Str object_name);
                      ("mean_percent", flt (nanmean np xs));
                      ("median_percent", flt (nanmedian np xs));
                      ("max_percent", mx);
                      ("count", Int (Z.of_nat (length values)))]
                     coverage_stats)
             else Ok coverage_stats)
          (Ok []) percent_columns;
  Pd.sort_values np "mean_percent" false
    (Pd.from_records coverage_stats.*2).

Definition generate_summary_stats (df : DataFrame)
  : result (DataFrame * DataFrame) :=
  artist_name ← Pd.getitem df "artist_name";
  object_id ← Pd.getitem df "object_id";
  creation_year ← Pd.getitem df "creation_year";
  lo ← series_min creation_year;
  year_min ← py_int lo;
  hi ← series_max creation_year;
  year_max ← py_int hi;
  let summary :=
    Pd.from_records
      [[("total_records", Int (Z.of_nat (Pd.len df)));
        ("total_columns", Int (Z.of_nat (length (Pd.columns df))));
        ("unique_artists", Int (Z.of_nat (Pd.nunique artist_name)));
        ("unique_object_ids", Int (Z.of_nat (Pd.nunique object_id)));
        ("year_min", Int year_min);
        ("year_max", Int year_max)]] in
  let missing_percent :=
    (λ c : string * list value,
       (Str c.1,
        percentage (Pd.len df)
          (Int (Z.of_nat (length (List.filter Pd.isna c.2))))))
      <$> cols df in
  missing_df ←
    Pd.sort_values np "percent_missing" false
      (Pd.reset_index "column" "percent_missing" missing_percent);
  Ok (summary, missing_df).

End Reducers.

(** ** Sorting kernels

Two implementations of [argsort]: a stable insertion sort, used to run
the reducers on examples, and numpy's portable quicksort, the kernel the
script's [sort_values] calls select by default. *)

Section InsertionSort.
  Context {A : Type} (leb : A → A → bool).

Fixpoint insert_by (x : A) (l : list A) : list A :=
  match l with
  | [] => [x]
  | y :: l' => if leb x y then x :: l else y :: insert_by x l'
  end.

Definition isort (l : list A) : list A := foldr insert_by [] l.

End InsertionSort.

Definition key_leb (a b : nat * value) : bool := negb (value_ltb b.2 a.2).

(** [argsort(kind='stable')] *)
Definition stable_argsort (l : list value) : list nat :=
  (isort key_leb (zip (seq 0 (length l)) l)).*1.

(** numpy's [aquicksort] (npysort/quicksort.cpp) on an array of positions
    [t] into the keys [v]: median-of-three partitioning down to ranges of at
    most 17 elements, which are finished by insertion sort.  The heap sort
    it falls back to when the depth limit is exhausted is not modelled:
    [None] then. *)
Section Quicksort.
  Variable v : list value.

Definition key_at (t : list nat) (p : nat) : value :=
  default NaN (v !! default 0%nat (t !! p)).

Definition swap (t : list nat) (i j : nat) : list nat :=
  <[i:=default 0%nat (t !! j)]> (<[j:=default 0%nat (t !! i)]> t).

(** [do ++pi; while (v[*pi] < vp)] *)
Fixpoint scan_up (fuel : nat) (t : list nat) (vp : value) (pi : nat) : nat :=
  match fuel with
  | O => pi
  | S f => if value_ltb (key_at t (S pi)) vp then scan_up f t vp (S pi) else S pi
  end.

(** [do --pj; while (vp < v[*pj])] *)
Fixpoint scan_down (fuel : nat) (t : list nat) (vp : value) (pj : nat) : nat :=
  match fuel with
  | O => pj
  | S f =>
      if value_ltb vp (key_at t (pj - 1)) then scan_down f t vp (pj - 1)
      else (pj - 1)%nat
  end.

Fixpoint partition_loop (fuel : nat) (t : list nat) (vp : value) (pi pj : nat)
  : list nat * nat :=
  match fuel with
  | O => (t, pi)
  | S f =>
      let pi := scan_up (length t) t vp pi in
      let pj := scan_down (length t) t vp pj in
      if (pj <=? pi)%nat then (t, pi)
      else partition_loop f (swap t pi pj) vp pi pj
  end.

(** [while (pj > pl && vp < v[*pk]) *pj-- = *pk--; *pj = vi] *)
Fixpoint shift_down (fuel : nat) (t : list nat) (pl vi : nat) (vp : value)
    (pj : nat) : list nat :=
  match fuel with
  | O => <[pj:=vi]> t
  | S f =>
      if (pl <? pj)%nat && value_ltb vp (key_at t (pj - 1))
      then shift_down f (<[pj:=default 0%nat (t !! (pj - 1)%nat)]> t) pl vi vp (pj - 1)
      else <[pj:=vi]> t
  end.

Definition insertion_range (t : list nat) (pl pr : nat) : list nat :=
  foldl (λ t pi,
           let vi := default 0%nat (t !! pi) in
           shift_down (length t) t pl vi (default NaN (v !! vi)) pi)
        t (seq (S pl) (pr - pl)).

Fixpoint aquicksort_loop (fuel : nat) (t : list nat) (pl pr : nat) (cdepth : Z)
    (stack : list (nat * nat * Z)) : option (list nat) :=
  match fuel with
  | O => None
  | S f =>
      if (16 <? pr - pl)%nat then
        let pm := (pl + (pr - pl) / 2)%nat in
        let t := if value_ltb (key_at t pm) (key_at t pl) then swap t pm pl else t in
        let t := if value_ltb (key_at t pr) (key_at t pm) then swap t pr pm else t in
        let t := if value_ltb (key_at t pm) (key_at t pl) then swap t pm pl else t in
        let vp := key_at t pm in
        let t := swap t pm (pr - 1) in
        let '(t, pi) := partition_loop (length t) t vp pl (pr - 1) in
        let t := swap t pi (pr - 1) in
        let cdepth := (cdepth - 1)%Z in
        if (pi - pl <? pr - pi)%nat
        then aquicksort_loop f t pl (pi - 1) cdepth ((S pi, pr, cdepth) :: stack)
        else aquicksort_loop f t (S pi) pr cdepth ((pl, (pi - 1)%nat, cdepth) :: stack)
      else
        let t := insertion_range t pl pr in
        match stack with
        | [] => Some t
        | (pl', pr', d) :: stack' =>
            if (d <? 0)%Z then None else aquicksort_loop f t pl' pr' d stack'
        end
  end.

End Quicksort.

(** [a.argsort(kind='quicksort')] with the portable kernel; the positions
    are left in place where the model has no answer. *)
Definition npy_aquicksort (v : list value) : list nat :=
  let num := length v in
  let t := seq 0 num in
  default t
    (aquicksort_loop v (2 * num + 2) t 0 (num - 1)
       (2 * Z.log2 (Z.of_nat num)) []).

(** Reference implementations of the other kernels: the mean as a running
    sum, the median through a sort, [str] of a float with an integral value
    and [int] of a string of decimal digits. *)
Definition ref_mean (xs : list float) : float :=
  PrimFloat.div (foldl PrimFloat.add 0%float xs) (Np.of_int (Z.of_nat (length xs))).

Definition ref_median (xs : list float) : float :=
  let s := isort PrimFloat.leb xs in
  let n := length s in
  if Nat.even n
  then PrimFloat.div
         (PrimFloat.add (default PrimFloat.nan (s !! (n / 2 - 1)%nat))
                        (default PrimFloat.nan (s !! (n / 2)%nat))) 2
  else default PrimFloat.nan (s !! (n / 2)%nat).

Definition ref_float_str (x : float) : string :=
  match Np.trunc x with
  | Some z => Py.str_int z ++ ".0"
  | None => "inf"
  end.

Definition ref_int_of_str (s : string) : option Z :=
  Z.of_int <$> NilZero.int_of_string (Py.strip s).

Definition stable_kernels : kernels :=
  mkKernels stable_argsort ref_mean ref_median ref_float_str ref_int_of_str.

Definition quicksort_kernels : kernels :=
  mkKernels npy_aquicksort ref_mean ref_median ref_float_str ref_int_of_str.

(** ** The entry point over a file store

    The loader and the writer are pandas' [read_csv] and [to_csv]; a file is
    modelled by the table it holds.  A run is a function of the store that
    returns a value or an exception together with the store it leaves. *)

Record world : Type := mkWorld {
  dirs : gset string;
  files : gmap string DataFrame;
  stdout : list string
}.

Definition io (A : Type) : Type := world → result A * world.

#[global] Instance io_bind : MBind io :=
  λ A B f m w, match m w with
               | (Ok a, w') => f a w'
               | (Raise e, w') => (Raise e, w')
               end.
#[global] Instance io_ret : MRet io := λ A a w, (Ok a, w).

(** A computation without effects, run inside [io]. *)
Definition lift {A} (r : result A) : io A := λ w, (r, w).

(** [print(line)] *)
Definition print (line : string) : io () :=
  λ w, (Ok (), mkWorld (dirs w) (files w) (stdout w ++ [line])).

(** [pd.read_csv(filepath)] *)
Definition load_data (filepath : string) : io DataFrame :=
  λ w, match files w !! filepath with
       | Some df => (Ok df, w)
       | None => (Raise (FileNotFoundError filepath), w)
       end.

(** [os.makedirs(path, exist_ok=True)]: an error when [path] is a file. *)
Definition ensure_output_dir (path : string) : io string :=
  λ w, match files w !! path with
       | Some _ => (Raise (FileExistsError path), w)
       | None => (Ok path, mkWorld ({[path]} ∪ dirs w) (files w) (stdout w))
       end.

(** [df.to_csv(os.path.join(out_dir, filename), index=False)]: the file is
    created or overwritten; an error when the path is a directory. *)
Definition write_df (df : DataFrame) (out_dir filename : string) : io string :=
  λ w, let filepath := (out_dir ++ "/" ++ filename)%string in
       if decide (filepath ∈ dirs w)
       then (Raise (IsADirectoryError filepath), w)
       else (Ok filepath, mkWorld (dirs w) (<[filepath:=df]> (files w)) (stdout w)).

Section Main.
Variable np : kernels.

Definition main : io () :=
  df ← load_data "final_dataset.csv";
  out_dir ← ensure_output_dir "analysis_outputs";
  stats ← lift (generate_summary_stats np df);
  _ ← write_df stats.1 out_dir "summary.csv";
  _ ← write_df stats.2 out_dir "missing_data_percentages.csv";
  gender ← lift (analyze_gender np df);
  _ ← write_df gender out_dir "gender_distribution.csv";
  nationality ← lift (analyze_nationality np df);
  _ ← write_df nationality out_dir "nationality_counts.csv";
  artists ← lift (analyze_artists np df);
  _ ← write_df artists out_dir "artist_counts.csv";
  temporal ← lift (analyze_temporal np df);
  _ ← write_df temporal out_dir "decade_counts.csv";
  work_types ← lift (analyze_work_types np df);
  _ ← write_df work_types out_dir "work_type_distribution.csv";
  museum ← lift (analyze_museum_collection np df);
  _ ← write_df museum out_dir "museum_collection_by_artist.csv";
  objects ← lift (analyze_objects np df);
  _ ← write_df objects out_dir "object_appearances.csv";
  coverage ← lift (analyze_object_percentages np df);
  _ ← write_df coverage out_dir "object_coverage_stats.csv";
  print "CSV outputs written to 'analysis_outputs/' directory.".

End Main.

(** * Properties *)

(** ** Counting *)

Section CountingFacts.
  Context {K : Type} `{EqDecision K}.
  Implicit Types (k : K) (l : list K) (acc : list (K * nat)).

Lemma assoc_Some_elem {V} k (v : V) (d : list (K * V)) :
  assoc k d = Some v → (k, v) ∈ d.
Proof.
  induction d as [|[k' v'] d IH]; simpl; [done|].
  case_decide; intros Hv; simplify_eq; [left | right; auto].
Qed.

Lemma assoc_None {V} k (d : list (K * V)) : assoc k d = None ↔ k ∉ d.*1.
Proof.
  induction d as [|[k' v'] d IH]; simpl.
  - split; [intros _; apply not_elem_of_nil | done].
  - rewrite not_elem_of_cons. case_decide; naive_solver.
Qed.

Lemma elem_assoc_NoDup {V} k (v : V) (d : list (K * V)) :
  NoDup d.*1 → (k, v) ∈ d → assoc k d = Some v.
Proof.
  induction d as [|[k' v'] d IH]; simpl; intros Hnd Hin.
  - by apply elem_of_nil in Hin.
  - apply NoDup_cons in Hnd as [Hk' Hnd].
    apply elem_of_cons in Hin as [Heq | Hin]; simplify_eq.
    + by rewrite decide_True.
    + rewrite decide_False; [auto|].
      intros ->. apply Hk'. apply list_elem_of_fmap. by exists (k', v).
Qed.

Lemma assoc_count_key k k' acc :
  assoc k (count_key k' acc)
  = if decide (k = k') then Some (S (default 0 (assoc k acc))) else assoc k acc.
Proof.
  induction acc as [|[k0 n] acc IH]; simpl.
  - repeat case_decide; simplify_eq; done.
  - destruct (decide (k' = k0)) as [->|Hne]; simpl.
    + repeat case_decide; simplify_eq; done.
    + rewrite IH. repeat case_decide; simplify_eq; done.
Qed.

Lemma keys_count_key k acc :
  (count_key k acc).*1 = if decide (k ∈ acc.*1) then acc.*1 else acc.*1 ++ [k].
Proof.
  induction acc as [|[k0 n] acc IH].
  - destruct (decide (k ∈ ([] : list (K * nat)).*1)) as [H0|_]; [|done].
    by apply elem_of_nil in H0.
  - cbn [count_key]. rewrite fmap_cons. cbn [fst].
    destruct (decide (k = k0)) as [->|Hne].
    + rewrite fmap_cons. cbn [fst].
      destruct (decide (k0 ∈ k0 :: acc.*1)) as [_|Hn]; [done|].
      exfalso. apply Hn. left.
    + rewrite fmap_cons, IH. cbn [fst].
      destruct (decide (k ∈ acc.*1)) as [Hin|Hin];
        destruct (decide (k ∈ k0 :: acc.*1)) as [Hin'|Hin']; try done.
      * exfalso. apply Hin'. by right.
      * exfalso. apply elem_of_cons in Hin' as [?|?]; done.
Qed.

Lemma sum_count_key k acc :
  sum_list (count_key k acc).*2 = S (sum_list acc.*2).
Proof.
  induction acc as [|[k0 n] acc IH]; [done|].
  cbn [count_key]. case_decide; rewrite !fmap_cons; cbn [snd sum_list foldr];
    [|rewrite IH]; simpl; lia.
Qed.

Lemma pos_count_key k acc :
  Forall (λ kn, 0 < kn.2) acc → Forall (λ kn, 0 < kn.2) (count_key k acc).
Proof.
  induction 1 as [|[k0 n] acc Hn Hacc IH]; simpl.
  - repeat constructor.
  - case_decide; constructor; simpl in *; auto with lia.
Qed.

Definition tally acc l : list (K * nat) := foldl (λ acc k, count_key k acc) acc l.

Lemma occurrences_cons k x l :
  occurrences k (x :: l) = (if decide (x = k) then 1 else 0) + occurrences k l.
Proof.
  unfold occurrences. rewrite filter_cons. by case_decide.
Qed.

Lemma occurrences_pos k l : 0 < occurrences k l ↔ k ∈ l.
Proof.
  induction l as [|x l IH].
  - unfold occurrences; simpl. split; [lia | by intros ?%elem_of_nil].
  - rewrite occurrences_cons, elem_of_cons. case_decide; naive_solver lia.
Qed.

Lemma tally_assoc k acc l :
  default 0 (assoc k (tally acc l)) = default 0 (assoc k acc) + occurrences k l.
Proof.
  revert acc. induction l as [|x l IH]; intros acc; simpl.
  - unfold occurrences. simpl. lia.
  - rewrite IH, assoc_count_key, occurrences_cons.
    repeat case_decide; simplify_eq; simpl; lia.
Qed.

Lemma tally_keys k acc l : k ∈ (tally acc l).*1 ↔ k ∈ acc.*1 ∨ k ∈ l.
Proof.
  revert acc. induction l as [|x l IH]; intros acc; simpl.
  - rewrite elem_of_nil. naive_solver.
  - rewrite IH, keys_count_key, elem_of_cons.
    case_decide; [naive_solver|]. rewrite elem_of_app, list_elem_of_singleton.
    naive_solver.
Qed.

Lemma tally_NoDup acc l : NoDup acc.*1 → NoDup (tally acc l).*1.
Proof.
  revert acc. induction l as [|x l IH]; intros acc Hnd; simpl; [done|].
  apply IH. rewrite keys_count_key. case_decide; [done|].
  apply NoDup_app. split_and!; [done | | apply NoDup_singleton].
  intros y Hy ->%list_elem_of_singleton. done.
Qed.

Lemma tally_sum acc l : sum_list (tally acc l).*2 = sum_list acc.*2 + length l.
Proof.
  revert acc. induction l as [|x l IH]; intros acc; simpl; [lia|].
  rewrite IH, sum_count_key. lia.
Qed.

Lemma tally_pos acc l :
  Forall (λ kn, 0 < kn.2) acc → Forall (λ kn, 0 < kn.2) (tally acc l).
Proof.
  revert acc. induction l as [|x l IH]; intros acc Hacc; simpl; [done|].
  by apply IH, pos_count_key.
Qed.

Lemma Counter_NoDup l : NoDup (Counter l).*1.
Proof. apply (tally_NoDup [] l). constructor. Qed.

Lemma Counter_keys k l : k ∈ (Counter l).*1 ↔ k ∈ l.
Proof.
  unfold Counter. rewrite (tally_keys k [] l). simpl.
  rewrite elem_of_nil. naive_solver.
Qed.

Lemma Counter_sum l : sum_list (Counter l).*2 = length l.
Proof. apply (tally_sum [] l). Qed.

Lemma Counter_elem k n l :
  (k, n) ∈ Counter l ↔ k ∈ l ∧ n = occurrences k l.
Proof.
  assert (Hget : default 0 (assoc k (Counter l)) = occurrences k l)
    by apply (tally_assoc k [] l).
  split.
  - intros Hin. split.
    + apply Counter_keys, list_elem_of_fmap. by exists (k, n).
    + apply elem_assoc_NoDup in Hin; [|apply Counter_NoDup].
      rewrite Hin in Hget. simpl in Hget. done.
  - intros [Hk ->]. apply assoc_Some_elem.
    destruct (assoc k (Counter l)) as [n|] eqn:E; simpl in Hget; [by subst|].
    apply assoc_None in E. by apply Counter_keys in Hk.
Qed.

Lemma Counter_length_le l : (length (Counter l) ≤ length l)%nat.
Proof.
  rewrite <- (Counter_sum l).
  assert (Hpos : Forall (λ kn, 0 < kn.2) (Counter l)) by (apply (tally_pos [] l); constructor).
  induction Hpos as [|[k n] d Hn _ IH]; [done|].
  rewrite fmap_cons. simpl in *. lia.
Qed.

End CountingFacts.

(** ** Positional indexing *)

Section TakeFacts.
  Context {A : Type}.
  Implicit Types (l : list A) (idx : list nat).

Lemma take_cons i idx l :
  Pd.take (i :: idx) l
  = match l !! i with Some x => x :: Pd.take idx l | None => Pd.take idx l end.
Proof. reflexivity. Qed.

Lemma take_cons_Some i idx l x :
  l !! i = Some x → Pd.take (i :: idx) l = x :: Pd.take idx l.
Proof. intros Hx. by rewrite take_cons, Hx. Qed.

Lemma take_app idx1 idx2 l :
  Pd.take (idx1 ++ idx2) l = Pd.take idx1 l ++ Pd.take idx2 l.
Proof. apply omap_app. Qed.

Lemma take_rev idx l : Pd.take (rev idx) l = rev (Pd.take idx l).
Proof.
  induction idx as [|i idx IH]; [done|].
  simpl rev. rewrite take_app, IH, !take_cons.
  destruct (l !! i); simpl; [done | by rewrite app_nil_r].
Qed.

Lemma take_ext idx l l' :
  Forall (λ i, l !! i = l' !! i) idx → Pd.take idx l = Pd.take idx l'.
Proof.
  induction 1 as [|i idx Hi _ IH]; [done|].
  by rewrite !take_cons, Hi, IH.
Qed.

Lemma take_seq_shift pre l :
  Pd.take (seq (length pre) (length l)) (pre ++ l) = l.
Proof.
  revert pre. induction l as [|x l IH]; intros pre; [done|].
  simpl. erewrite take_cons_Some; [|by rewrite list_lookup_middle].
  f_equal. specialize (IH (pre ++ [x])).
  rewrite length_app, <- app_assoc in IH. simpl in IH.
  by rewrite Nat.add_1_r in IH.
Qed.

Lemma take_seq l : Pd.take (seq 0 (length l)) l = l.
Proof. apply (take_seq_shift [] l). Qed.

Lemma take_perm idx l : idx ≡ₚ seq 0 (length l) → Pd.take idx l ≡ₚ l.
Proof.
  intros Hp. unfold Pd.take. rewrite Hp. fold (Pd.take (seq 0 (length l)) l).
  by rewrite take_seq.
Qed.

Lemma take_length idx l :
  Forall (λ i, i < length l) idx → length (Pd.take idx l) = length idx.
Proof.
  induction 1 as [|i idx Hi _ IH]; [done|].
  destruct (lookup_lt_is_Some_2 l i Hi) as [x Hx].
  rewrite (take_cons_Some _ _ _ _ Hx). simpl. by rewrite IH.
Qed.

Lemma take_lookup idx l j :
  Forall (λ i, i < length l) idx →
  Pd.take idx l !! j = idx !! j ≫= (l !!.).
Proof.
  intros Hv. revert j. induction Hv as [|i idx Hi _ IH]; intros j; [done|].
  destruct (lookup_lt_is_Some_2 l i Hi) as [x Hx].
  rewrite (take_cons_Some _ _ _ _ Hx).
  destruct j as [|j]; simpl; [done | apply IH].
Qed.

End TakeFacts.

Lemma take_take {A} (idx idx' : list nat) (l : list A) :
  Forall (λ i, i < length l) idx' →
  Pd.take (Pd.take idx idx') l = Pd.take idx (Pd.take idx' l).
Proof.
  intros Hv. induction idx as [|j idx IH]; [done|].
  rewrite (take_cons j idx idx'), (take_cons j idx (Pd.take idx' l)).
  rewrite (take_lookup idx' l j Hv).
  destruct (idx' !! j) as [i|]; simpl; [|apply IH].
  rewrite take_cons. destruct (l !! i) as [x|]; simpl; by rewrite <- IH.
Qed.

Lemma take_fmap {A B} (f : A → B) (idx : list nat) (l : list A) :
  Pd.take idx (f <$> l) = f <$> Pd.take idx l.
Proof.
  induction idx as [|i idx IH]; [done|].
  rewrite !take_cons, list_lookup_fmap, IH.
  by destruct (l !! i).
Qed.

Lemma rev_fmap {A B} (f : A → B) (l : list A) : rev (f <$> l) = f <$> rev l.
Proof.
  induction l as [|x l IH]; [done|].
  rewrite fmap_cons. simpl rev. by rewrite fmap_app, IH.
Qed.

Lemma take_id (idx : list nat) (n : nat) :
  Forall (λ i, i < n) idx → Pd.take idx (seq 0 n) = idx.
Proof.
  induction 1 as [|i idx Hi _ IH]; [done|].
  erewrite take_cons_Some; [by rewrite IH | by apply lookup_seq_lt].
Qed.

Lemma perm_seq_bound (idx : list nat) (n : nat) :
  idx ≡ₚ seq 0 n → Forall (λ i, i < n) idx.
Proof.
  intros Hp. eapply Permutation_Forall; [symmetry; exact Hp|].
  apply Forall_forall. intros i Hi. apply elem_of_seq in Hi. lia.
Qed.

Lemma take_filter_seq (P : value → bool) (l : list value) :
  Pd.take (List.filter (λ i, P (default NaN (l !! i))) (seq 0 (length l))) l
  = List.filter P l.
Proof.
  induction l as [|x l IH] using rev_ind; [done|].
  rewrite length_app. simpl length. rewrite seq_app, !List.filter_app, take_app.
  simpl seq. f_equal.
  - rewrite <- IH.
    rewrite (List.filter_ext_in _ (λ i, P (default NaN (l !! i)))).
    + apply take_ext, Forall_forall. intros i Hi.
      apply list_elem_of_In, filter_In in Hi as [Hi _]. apply in_seq in Hi.
      rewrite lookup_app_l; [done | lia].
    + intros i Hi. apply in_seq in Hi. rewrite lookup_app_l; [done | lia].
  - simpl. rewrite list_lookup_middle; [|done]. simpl.
    destruct (P x); [|done].
    erewrite take_cons_Some; [done | by rewrite list_lookup_middle].
Qed.

Lemma filter_seq_perm (P : nat → bool) (l : list nat) :
  List.filter P l ++ List.filter (λ i, negb (P i)) l ≡ₚ l.
Proof.
  induction l as [|x l IH]; [done|]. simpl. destruct (P x); simpl.
  - by rewrite IH.
  - rewrite <- Permutation_middle. by rewrite IH.
Qed.

Lemma strongly_sorted_snoc {A} (R : A → A → Prop) (l : list A) (x : A) :
  StronglySorted R l → Forall (λ y, R y x) l → StronglySorted R (l ++ [x]).
Proof.
  induction 1 as [|y l Hl IH Hy]; intros Hx; simpl.
  - repeat constructor.
  - apply Forall_cons in Hx as [Hyx Hx]. constructor; [by apply IH|].
    apply Forall_app. split; [done | by constructor].
Qed.

Lemma sorted_rev (l : list Z) : Sorted Z.le l → Sorted Z.ge (rev l).
Proof.
  intros Hs. apply Sorted_StronglySorted in Hs; [|intros x y z; lia].
  apply StronglySorted_Sorted.
  induction Hs as [|x l Hs IH Hx]; simpl; [constructor|].
  apply strongly_sorted_snoc; [done|].
  apply Forall_forall. intros y Hy. rewrite Forall_forall in Hx.
  apply list_elem_of_In, in_rev, list_elem_of_In, Hx in Hy. lia.
Qed.

(** ** The contract of the sorting kernel

    What every [kind] of [argsort] guarantees: the result lists each
    position once, and the keys of an integer column are in non-decreasing
    order along it.  Nothing is said about the order of equal keys. *)
Record argsort_spec (np : kernels) : Prop := {
  argsort_perm : ∀ l, argsort np l ≡ₚ seq 0 (length l);
  argsort_sorted : ∀ zs : list Z, Sorted Z.le (Pd.take (argsort np (Int <$> zs)) zs)
}.

Section NargsortFacts.
  Variable np : kernels.
  Hypothesis Hnp : argsort_spec np.

Lemma nargsort_perm asc (items : list value) :
  Pd.nargsort np asc items ≡ₚ seq 0 (length items).
Proof.
  unfold Pd.nargsort.
  set (idx := seq 0 (length items)).
  set (nn_idx := List.filter (λ i, Pd.notna (default NaN (items !! i))) idx).
  set (n_idx := List.filter (λ i, Pd.isna (default NaN (items !! i))) idx).
  assert (Hlen : length (Pd.dropna items) = length nn_idx).
  { unfold Pd.dropna. rewrite <- (take_filter_seq Pd.notna items).
    apply take_length, Forall_forall. intros i Hi.
    apply list_elem_of_In, filter_In in Hi as [Hi _]. apply in_seq in Hi. lia. }
  assert (Hsplit : nn_idx ++ n_idx ≡ₚ idx).
  { subst nn_idx n_idx. unfold Pd.notna.
    rewrite (Permutation_app_comm _ _).
    rewrite <- (filter_seq_perm (λ i, Pd.isna (default NaN (items !! i))) idx) at 3.
    done. }
  rewrite <- Hsplit. apply Permutation_app_tail.
  destruct asc.
  - apply take_perm. rewrite <- Hlen. apply (argsort_perm np Hnp).
  - rewrite <- Permutation_rev.
    rewrite take_perm; [by rewrite <- Permutation_rev|].
    rewrite length_rev, <- Hlen, <- (length_rev (Pd.dropna items)).
    apply (argsort_perm np Hnp).
Qed.

Lemma dropna_ints (zs : list Z) : Pd.dropna (Int <$> zs) = Int <$> zs.
Proof.
  unfold Pd.dropna. induction zs as [|z zs IH]; [done|].
  rewrite fmap_cons. simpl. by rewrite IH.
Qed.

Lemma nargsort_ints asc (zs : list Z) :
  Pd.nargsort np asc (Int <$> zs)
  = if asc then argsort np (Int <$> zs)
    else rev (Pd.take (argsort np (Int <$> rev zs)) (rev (seq 0 (length zs)))).
Proof.
  unfold Pd.nargsort. rewrite dropna_ints, length_fmap.
  rewrite (List.filter_ext_in _ (λ _, true)) by
    (intros i Hi; apply in_seq in Hi;
     destruct (lookup_lt_is_Some_2 zs i ltac:(lia)) as [z Hz];
     by rewrite list_lookup_fmap, Hz).
  rewrite (List.filter_ext_in (λ i, Pd.isna _) (λ _, false)) by
    (intros i Hi; apply in_seq in Hi;
     destruct (lookup_lt_is_Some_2 zs i ltac:(lia)) as [z Hz];
     by rewrite list_lookup_fmap, Hz).
  assert (Hall : ∀ l : list nat, List.filter (λ _, true) l = l)
    by (induction l; simpl; congruence).
  assert (Hnone : ∀ l : list nat, List.filter (λ _, false) l = [])
    by (induction l; simpl; congruence).
  rewrite Hall, Hnone, app_nil_r.
  destruct asc.
  - apply take_id. rewrite <- (length_fmap Int zs).
    apply perm_seq_bound, (argsort_perm np Hnp).
  - by rewrite rev_fmap.
Qed.

(** Sorting rows by an integer key: the result is a rearrangement of the
    rows with the keys in order. *)
Lemma sort_rows_asc {A} (key : A → Z) (rows : list A) :
  let sorted := Pd.take (Pd.nargsort np true (Int ∘ key <$> rows)) rows in
  sorted ≡ₚ rows ∧ Sorted Z.le (key <$> sorted).
Proof.
  simpl. split.
  - apply take_perm. rewrite <- (length_fmap (Int ∘ key) rows). apply nargsort_perm.
  - rewrite list_fmap_compose, nargsort_ints, <- take_fmap.
    apply (argsort_sorted np Hnp).
Qed.

Lemma sort_rows_desc {A} (key : A → Z) (rows : list A) :
  let sorted := Pd.take (Pd.nargsort np false (Int ∘ key <$> rows)) rows in
  sorted ≡ₚ rows ∧ Sorted Z.ge (key <$> sorted).
Proof.
  simpl. split.
  - apply take_perm. rewrite <- (length_fmap (Int ∘ key) rows). apply nargsort_perm.
  - rewrite list_fmap_compose, nargsort_ints, <- take_fmap.
    set (zs := key <$> rows).
    rewrite take_rev, take_take, take_rev, take_seq.
    + apply sorted_rev, (argsort_sorted np Hnp).
    + apply Forall_forall. intros i Hi.
      apply list_elem_of_In, in_rev, in_seq in Hi. lia.
Qed.

End NargsortFacts.

(** ** The stable kernel meets the contract *)

Section InsertionSortFacts.
  Context {A : Type} (leb : A → A → bool).

Lemma insert_by_perm x (l : list A) : insert_by leb x l ≡ₚ x :: l.
Proof.
  induction l as [|y l IH]; simpl; [done|].
  destruct (leb x y); [done|]. rewrite IH. apply perm_swap.
Qed.

Lemma isort_perm (l : list A) : isort leb l ≡ₚ l.
Proof.
  induction l as [|x l IH]; simpl; [done|].
  fold (isort leb l). by rewrite insert_by_perm, IH.
Qed.

Variables (R : A → A → Prop) (P : A → Prop).
Hypothesis leb_true : ∀ x y, P x → P y → leb x y = true → R x y.
Hypothesis leb_false : ∀ x y, P x → P y → leb x y = false → R y x.

Lemma insert_by_sorted x (l : list A) :
  P x → Forall P l → Sorted R l → Sorted R (insert_by leb x l).
Proof.
  intros Hx Hl Hs. induction Hs as [|y l Hs IH Hy]; simpl.
  - repeat constructor.
  - apply Forall_cons in Hl as [Hpy Hl].
    destruct (leb x y) eqn:E.
    + constructor; [by constructor|]. constructor. by apply leb_true.
    + constructor; [by apply IH|].
      destruct Hy as [|z l Hyz]; simpl.
      * constructor. by apply leb_false.
      * apply Forall_cons in Hl as [Hpz Hl].
        destruct (leb x z); constructor; [by apply leb_false | done].
Qed.

Lemma isort_sorted (l : list A) : Forall P l → Sorted R (isort leb l).
Proof.
  induction 1 as [|x l Hx Hl IH]; simpl; [constructor|].
  fold (isort leb l). apply insert_by_sorted; [done | | done].
  eapply Permutation_Forall; [symmetry; apply isort_perm | done].
Qed.

End InsertionSortFacts.

Lemma stable_argsort_perm (l : list value) :
  stable_argsort l ≡ₚ seq 0 (length l).
Proof.
  unfold stable_argsort. rewrite isort_perm.
  rewrite fst_zip; [done | by rewrite length_seq].
Qed.

Definition int_key (p : nat * value) : Z :=
  match p.2 with Int z => z | _ => 0 end.

Lemma take_pairs (zs : list Z) (ps : list (nat * value)) :
  Forall (λ p, (Int <$> zs) !! p.1 = Some p.2) ps →
  Pd.take ps.*1 zs = int_key <$> ps.
Proof.
  induction 1 as [|[i v] ps Hp _ IH]; [done|].
  rewrite !fmap_cons. simpl in *.
  rewrite list_lookup_fmap in Hp.
  destruct (zs !! i) as [z|] eqn:E; simplify_eq/=.
  erewrite take_cons_Some; [|done]. by rewrite IH.
Qed.

Lemma zip_seq_lookup {A} (l : list A) :
  Forall (λ p, l !! p.1 = Some p.2) (zip (seq 0 (length l)) l).
Proof.
  apply Forall_forall. intros [i x] Hin.
  apply list_elem_of_lookup in Hin as [j Hj].
  apply lookup_zip_with_Some in Hj as (i' & x' & ? & Hi & Hx). simplify_eq/=.
  apply lookup_seq in Hi as [-> _]. done.
Qed.

Lemma stable_argsort_sorted (zs : list Z) :
  Sorted Z.le (Pd.take (stable_argsort (Int <$> zs)) zs).
Proof.
  unfold stable_argsort. rewrite length_fmap, <- (length_fmap Int zs).
  set (ps := zip _ _).
  assert (Hps : Forall (λ p, (Int <$> zs) !! p.1 = Some p.2) ps)
    by apply zip_seq_lookup.
  assert (Hint : Forall (λ p : nat * value, ∃ z, p.2 = Int z) ps).
  { eapply Forall_impl; [exact Hps|]. intros [i v] Hp. simpl in *.
    rewrite list_lookup_fmap in Hp. destruct (zs !! i); simplify_eq/=. eauto. }
  rewrite take_pairs.
  - assert (Hs : Sorted (λ a b, (int_key a ≤ int_key b)%Z) (isort key_leb ps)).
    { apply (isort_sorted key_leb _ (λ p, ∃ z, p.2 = Int z)); [| |done].
      - intros [i a] [j b] [x ?] [y ?]; simplify_eq/=. unfold key_leb, int_key.
        simpl. intros Hle. apply negb_true_iff, Z.ltb_ge in Hle. done.
      - intros [i a] [j b] [x ?] [y ?]; simplify_eq/=. unfold key_leb, int_key.
        simpl. intros Hle. apply negb_false_iff, Z.ltb_lt in Hle. lia. }
    revert Hs. generalize (isort key_leb ps). intros l Hs.
    induction Hs as [|p l Hs IH Hp]; [constructor|].
    rewrite fmap_cons. constructor; [done|].
    destruct Hp; rewrite ?fmap_cons; by constructor.
  - eapply Permutation_Forall; [symmetry; apply isort_perm | done].
Qed.

Lemma stable_kernels_spec : argsort_spec stable_kernels.
Proof.
  split; [apply stable_argsort_perm | apply stable_argsort_sorted].
Qed.

(** ** Frames *)

#[global] Instance Str_inj : Inj (=) (=) Str.
Proof. by intros s t [= ->]. Qed.

#[global] Instance Int_inj : Inj (=) (=) Int.
Proof. by intros s t [= ->]. Qed.

Lemma getitem_Ok (df : DataFrame) (c : string) (l : list value) :
  Pd.getitem df c = Ok l ↔ assoc c (cols df) = Some l.
Proof.
  unfold Pd.getitem. destruct (assoc c (cols df)); split; intros; by simplify_eq.
Qed.

Lemma getitem_column (df : DataFrame) (c : string) (l : list value) :
  Pd.getitem df c = Ok l → Pd.column df c = l.
Proof. intros H%getitem_Ok. unfold Pd.column. by rewrite H. Qed.

Lemma getitem_elem (df : DataFrame) (c : string) (l : list value) :
  Pd.getitem df c = Ok l → (c, l) ∈ cols df.
Proof. intros H%getitem_Ok. by apply assoc_Some_elem. Qed.

Lemma wf_length (df : DataFrame) (c : string) (l : list value) :
  wf df → Pd.getitem df c = Ok l → length l = nrows df.
Proof.
  intros [Hall _] Hc%getitem_elem. rewrite Forall_forall in Hall.
  by destruct (Hall _ Hc).
Qed.

(** ** C3: the summary over a year column without a value *)

Lemma dropna_all_nan (l : list value) :
  Forall (λ v, v = NaN) l → Pd.dropna l = [] ∧ existsb is_str l = false.
Proof.
  induction 1 as [|v l -> _ [IH1 IH2]]; [done|].
  unfold Pd.dropna in *. simpl. by rewrite IH1, IH2.
Qed.

(** C3.  When every record misses its [creation_year] (the column holds
    only the missing marker, or is absent), [generate_summary_stats] ends
    with an exception and returns no summary; when the three columns it
    reads are present, the exception is the [ValueError] that [int] raises
    on the missing minimum. *)
Theorem C3_summary_fails_without_years (np : kernels) (df : DataFrame) :
  (∀ cells, Pd.getitem df "creation_year" = Ok cells → Forall (λ v, v = NaN) cells) →
  (∃ e, generate_summary_stats np df = Raise e)
  ∧ (is_ok (Pd.getitem df "artist_name") = true →
     is_ok (Pd.getitem df "object_id") = true →
     is_ok (Pd.getitem df "creation_year") = true →
     generate_summary_stats np df = Raise ValueError).
Proof.
  intros Hnan. unfold generate_summary_stats.
  destruct (Pd.getitem df "artist_name") as [a|e1]; simpl; [|split; [eauto | done]].
  destruct (Pd.getitem df "object_id") as [o|e2]; simpl; [|split; [eauto | done]].
  destruct (Pd.getitem df "creation_year") as [y|e3]; simpl; [|split; [eauto | done]].
  destruct (dropna_all_nan y (Hnan y eq_refl)) as [Hdrop Hstr].
  unfold series_min, reduce. rewrite Hdrop, Hstr. simpl. eauto.
Qed.

Definition df_no_years : DataFrame := mkDF 2
  [("artist_name", [Str "A"; Str "B"]);
   ("object_id", [Int 1; Int 2]);
   ("creation_year", [NaN; NaN])].

Lemma C3_witness :
  (∃ e, generate_summary_stats stable_kernels df_no_years = Raise e)
  ∧ (is_ok (Pd.getitem df_no_years "artist_name") = true →
     is_ok (Pd.getitem df_no_years "object_id") = true →
     is_ok (Pd.getitem df_no_years "creation_year") = true →
     generate_summary_stats stable_kernels df_no_years = Raise ValueError).
Proof.
  apply (C3_summary_fails_without_years stable_kernels df_no_years).
  intros cells Hc. vm_compute in Hc. injection Hc as <-. repeat constructor.
Defined.

(** ** Sorting a frame *)

Lemma take_nil {A} (idx : list nat) : Pd.take idx ([] : list A) = [].
Proof. induction idx as [|i idx IH]; [done|]. by rewrite take_cons. Qed.

Lemma assoc_fmap {V W} (f : V → W) (c : string) (d : list (string * V)) :
  assoc c ((λ kv, (kv.1, f kv.2)) <$> d) = f <$> assoc c d.
Proof.
  induction d as [|[k v] d IH]; [done|].
  rewrite fmap_cons. simpl. by case_decide.
Qed.

Lemma sort_values_Ok (np : kernels) (key : string) (asc : bool) (df : DataFrame)
    (keys : list value) :
  Pd.getitem df key = Ok keys →
  Pd.sort_values np key asc df
  = Ok (mkDF (nrows df)
          ((λ c, (c.1, Pd.take (Pd.nargsort np asc keys) c.2)) <$> cols df)).
Proof. intros Hk. unfold Pd.sort_values. by rewrite Hk. Qed.

Lemma sort_values_Raise (np : kernels) (key : string) (asc : bool) (df : DataFrame) :
  assoc key (cols df) = None → Pd.sort_values np key asc df = Raise (KeyError key).
Proof. intros Hk. unfold Pd.sort_values, Pd.getitem. by rewrite Hk. Qed.

(** ** The multi-valued splitter *)

Section Splitter.
Variable np : kernels.

(** What [analyze_nationality] and [analyze_artists] do with the cells of
    their column. *)
Definition all_segments (cells : list value) : list string :=
  concat (segments np <$> Pd.dropna cells).

Definition count_key_of (kv : string * nat) : Z := Z.of_nat kv.2.

Definition splitter (label : string) (cells : list value) : result DataFrame :=
  Pd.sort_values np "count" false
    (Pd.from_records (count_record label <$> Counter (all_segments cells))).

Lemma analyze_nationality_splitter (df : DataFrame) :
  analyze_nationality np df
  = (cells ← Pd.getitem df "origin"; splitter "origin" cells).
Proof. reflexivity. Qed.

Lemma analyze_artists_splitter (df : DataFrame) :
  analyze_artists np df
  = (cells ← Pd.getitem df "artist_name"; splitter "artist_name" cells).
Proof. reflexivity. Qed.

Lemma count_record_label (label : string) (kv : string * nat) :
  default NaN (assoc label (count_record label kv)) = Str kv.1.
Proof. unfold count_record. cbn [assoc]. by rewrite decide_True. Qed.

Lemma count_record_count (label : string) (kv : string * nat) :
  label ≠ "count" →
  default NaN (assoc "count" (count_record label kv)) = Int (count_key_of kv).
Proof.
  intros Hl. unfold count_record. cbn [assoc]. rewrite decide_False by done.
  by rewrite decide_True.
Qed.

Lemma from_records_counts (label : string) (items : list (string * nat)) :
  label ≠ "count" → items ≠ [] →
  Pd.from_records (count_record label <$> items)
  = mkDF (length items)
      [(label, Str <$> items.*1); ("count", Int ∘ count_key_of <$> items)].
Proof.
  intros Hl Hne. destruct items as [|kv items]; [done|].
  transitivity
    (mkDF (length (count_record label <$> kv :: items))
       [(label, (λ r, default NaN (assoc label r)) <$> (count_record label <$> kv :: items));
        ("count", (λ r, default NaN (assoc "count" r)) <$> (count_record label <$> kv :: items))]);
    [reflexivity|].
  rewrite length_fmap. repeat f_equal.
  - rewrite <- !list_fmap_compose. apply list_fmap_ext. intros i x _.
    apply count_record_label.
  - rewrite <- !list_fmap_compose. apply list_fmap_ext. intros i x _.
    by apply count_record_count.
Qed.

Lemma splitter_empty (label : string) (cells : list value) :
  all_segments cells = [] → splitter label cells = Raise (KeyError "count").
Proof. intros H. unfold splitter. by rewrite H. Qed.

(** The rows of the result: the counted segments, rearranged by the sort. *)
Definition splitter_rows (cells : list value) : list (string * nat) :=
  let items := Counter (all_segments cells) in
  Pd.take (Pd.nargsort np false (Int ∘ count_key_of <$> items)) items.

Lemma splitter_Ok (label : string) (cells : list value) :
  label ≠ "count" → all_segments cells ≠ [] →
  splitter label cells
  = Ok (mkDF (length (Counter (all_segments cells)))
          [(label, Str <$> (splitter_rows cells).*1);
           ("count", Int ∘ count_key_of <$> splitter_rows cells)]).
Proof.
  intros Hl Hne. unfold splitter.
  assert (Hitems : Counter (all_segments cells) ≠ []).
  { destruct (all_segments cells) as [|s l] eqn:E; [done|].
    intros Hnil. assert (Hin : s ∈ (Counter (s :: l)).*1) by (apply Counter_keys; left).
    rewrite Hnil in Hin. by apply elem_of_nil in Hin. }
  rewrite (from_records_counts label _ Hl Hitems).
  erewrite sort_values_Ok.
  2:{ unfold Pd.getitem. cbn [cols assoc]. rewrite decide_False by done.
      by rewrite decide_True. }
  cbn [nrows cols fmap list_fmap fst snd]. unfold splitter_rows.
  by rewrite !take_fmap.
Qed.

End Splitter.

(** ** C2 and C7: what the splitter counts, and the order of its rows *)


Lemma split_without_sep (sep : ascii) (s : string) :
  Py.contains sep s = false → Py.split sep s = [s].
Proof.
  induction s as [|c s IH]; simpl; [done|].
  intros [Hc Hs]%orb_false_iff. rewrite Hc, (IH Hs). done.
Qed.

(** The test [if '|' in str(v)] of the source does not change the result:
    a value without the delimiter splits into itself. *)
Lemma segments_split (np : kernels) (v : value) :
  segments np v = Py.strip <$> Py.split "|" (py_str np v).
Proof.
  unfold segments. destruct (Py.contains "|" (py_str np v)) eqn:E; [done|].
  by rewrite (split_without_sep _ _ E).
Qed.



Lemma zip_fmap_same {A B C} (f : A → B) (g : A → C) (l : list A) :
  zip (f <$> l) (g <$> l) = (λ x, (f x, g x)) <$> l.
Proof. induction l as [|x l IH]; [done|]. rewrite !fmap_cons. simpl. by rewrite IH. Qed.

(** What the specification says of the report of the splitter on the cells
    of its column: a row per distinct segment, with the number of times the
    segment occurs in the whole column. *)
Definition splitter_report (np : kernels) (label : string) (cells : list value)
    (out : DataFrame) : Prop :=
  let segs :=
    concat ((λ v, Py.strip <$> Py.split "|" (py_str np v)) <$> Pd.dropna cells) in
  Pd.columns out = [label; "count"]
  ∧ nrows out = length (Pd.column out label)
  ∧ length (Pd.column out label) = length (Pd.column out "count")
  ∧ NoDup (Pd.column out label)
  ∧ (∀ v, v ∈ Pd.column out label ↔ ∃ s, v = Str s ∧ s ∈ segs)
  ∧ (∀ (s : string) (c : value),
       (Str s, c) ∈ zip (Pd.column out label) (Pd.column out "count")
       ↔ s ∈ segs ∧ c = Int (Z.of_nat (occurrences s segs))).

(** The order of the rows: the counts never increase, and the rows are the
    counted segments in some order. *)
Definition splitter_order (np : kernels) (label : string) (cells : list value)
    (out : DataFrame) : Prop :=
  ∃ rows : list (string * nat),
    rows ≡ₚ Counter (all_segments np cells)
    ∧ Pd.column out label = Str <$> rows.*1
    ∧ Pd.column out "count" = Int ∘ count_key_of <$> rows
    ∧ Sorted Z.ge (count_key_of <$> rows).

Section SplitterFacts.
Variable np : kernels.
Hypothesis Hnp : argsort_spec np.

Lemma splitter_rows_perm (cells : list value) :
  splitter_rows np cells ≡ₚ Counter (all_segments np cells)
  ∧ Sorted Z.ge (count_key_of <$> splitter_rows np cells).
Proof. apply (sort_rows_desc np Hnp count_key_of). Qed.

Lemma all_segments_split (cells : list value) :
  all_segments np cells
  = concat ((λ v, Py.strip <$> Py.split "|" (py_str np v)) <$> Pd.dropna cells).
Proof.
  unfold all_segments. f_equal. apply list_fmap_ext. intros i v _.
  apply segments_split.
Qed.

Lemma splitter_columns (label : string) (cells : list value) (out : DataFrame) :
  label ≠ "count" → splitter np label cells = Ok out →
  nrows out = length (Counter (all_segments np cells))
  ∧ Pd.columns out = [label; "count"]
  ∧ Pd.column out label = Str <$> (splitter_rows np cells).*1
  ∧ Pd.column out "count" = Int ∘ count_key_of <$> splitter_rows np cells.
Proof.
  intros Hl Hout.
  destruct (decide (all_segments np cells = [])) as [He|Hne].
  { by rewrite (splitter_empty np label cells He) in Hout. }
  rewrite (splitter_Ok np label cells Hl Hne) in Hout. injection Hout as <-.
  unfold Pd.columns, Pd.column. cbn [nrows cols assoc fmap list_fmap fst].
  rewrite decide_True by done. rewrite decide_False by done.
  rewrite decide_True by done. done.
Qed.

Lemma splitter_report_holds (label : string) (cells : list value) (out : DataFrame) :
  label ≠ "count" → splitter np label cells = Ok out →
  splitter_report np label cells out ∧ splitter_order np label cells out.
Proof.
  intros Hl Hout.
  destruct (splitter_columns label cells out Hl Hout) as (Hn & Hcols & Hlab & Hcnt).
  destruct (splitter_rows_perm cells) as [Hperm Hsorted].
  split; [|exists (splitter_rows np cells); done].
  unfold splitter_report. rewrite <- all_segments_split, Hlab, Hcnt.
  split_and!.
  - done.
  - by rewrite Hn, !length_fmap, Hperm.
  - by rewrite !length_fmap.
  - apply (NoDup_fmap_2 _). rewrite Hperm. apply Counter_NoDup.
  - intros v. rewrite list_elem_of_fmap. setoid_rewrite Hperm.
    setoid_rewrite Counter_keys. naive_solver.
  - intros s c. rewrite <- list_fmap_compose, zip_fmap_same, list_elem_of_fmap.
    setoid_rewrite Hperm. split.
    + intros ([s' n] & Heq & Hin). simpl in Heq. simplify_eq.
      apply Counter_elem in Hin as [Hs ->]. done.
    + intros [Hs ->]. exists (s, occurrences s (all_segments np cells)).
      split; [done|]. by apply Counter_elem.
Qed.


End SplitterFacts.

Definition df_two_artists : DataFrame :=
  mkDF 2 [("artist_name", [Str "A|B"; Str "B"])].


(** The two uses of the splitter. *)
Inductive multi_valued : Type := Origin | Artist_name.

Definition multi_valued_column (c : multi_valued) : string :=
  match c with Origin => "origin" | Artist_name => "artist_name" end.

Definition multi_valued_reducer (np : kernels) (c : multi_valued)
  : DataFrame → result DataFrame :=
  match c with
  | Origin => analyze_nationality np
  | Artist_name => analyze_artists np
  end.

Lemma multi_valued_splitter (np : kernels) (c : multi_valued) (df : DataFrame)
    (cells : list value) :
  Pd.getitem df (multi_valued_column c) = Ok cells →
  multi_valued_reducer np c df = splitter np (multi_valued_column c) cells.
Proof.
  intros Hc. destruct c; simpl in *.
  - by rewrite analyze_nationality_splitter, Hc.
  - by rewrite analyze_artists_splitter, Hc.
Qed.

Lemma multi_valued_column_ne (c : multi_valued) : multi_valued_column c ≠ "count".
Proof. by destruct c. Qed.



(** The position at which [s] is first met in [l]. *)
Fixpoint position (s : string) (l : list string) : nat :=
  match l with
  | [] => 0
  | x :: l' => if decide (x = s) then 0 else S (position s l')
  end.

(** The tie-break the specification states for the splitter: of two rows
    with the same count, the one whose segment was met first comes first. *)
Definition ties_in_first_seen_order (segs : list string) (label : string)
    (out : DataFrame) : Prop :=
  ∀ (i j : nat) (s t : string) (c : value),
    i < j →
    Pd.column out label !! i = Some (Str s) →
    Pd.column out label !! j = Some (Str t) →
    Pd.column out "count" !! i = Some c →
    Pd.column out "count" !! j = Some c →
    position s segs < position t segs.

Definition eighteen : list string :=
  ["a"; "b"; "c"; "d"; "e"; "f"; "g"; "h"; "i"; "j"; "k"; "l"; "m"; "n"; "o";
   "p"; "q"; "r"].

(** Eighteen records, each with an artist of its own. *)
Definition df_ties : DataFrame := mkDF 18 [("artist_name", Str <$> eighteen)].

(** C7, as stated, fails: numpy's quicksort, which [sort_values] uses when
    no [kind] is given, leaves the seventeen-element ranges to insertion
    sort but partitions a longer one, and partitioning moves equal keys
    past each other.  The eighteen artists all have count 1; the report
    lists [q] before [p], which was met first. *)
Lemma C7_counterexample :
  all_segments quicksort_kernels (Pd.column df_ties "artist_name") = eighteen
  ∧ ∃ out,
      analyze_artists quicksort_kernels df_ties = Ok out
      ∧ Pd.column out "artist_name"
        = Str <$> ["a"; "b"; "q"; "p"; "o"; "n"; "m"; "l"; "k"; "j"; "i"; "h";
                   "g"; "f"; "e"; "d"; "c"; "r"]
      ∧ Pd.column out "count" = replicate 18 (Int 1)
      ∧ ¬ ties_in_first_seen_order eighteen "artist_name" out.
Proof.
  split; [by vm_compute|].
  eexists. split; [by vm_compute|]. split_and!; [by vm_compute..|].
  intros Hties. specialize (Hties 2 3 "q" "p" (Int 1)). vm_compute in Hties.
  specialize (Hties (le_n 3) eq_refl eq_refl eq_refl eq_refl).
  apply (Nat.lt_irrefl 16). apply Nat.lt_trans with 17; [lia|].
  apply Nat.lt_succ_r in Hties. lia.
Qed.

(** C7, amended.  The rows of a report of the splitter are the counted
    segments in some order, and along the rows the counts never increase;
    the order of rows with equal counts is the sorting kernel's choice. *)
Theorem C7_splitter_rows_by_descending_count (np : kernels) (c : multi_valued)
    (df : DataFrame) (cells : list value) (out : DataFrame) :
  argsort_spec np →
  Pd.getitem df (multi_valued_column c) = Ok cells →
  multi_valued_reducer np c df = Ok out →
  splitter_order np (multi_valued_column c) cells out.
Proof.
  intros Hnp Hc. rewrite (multi_valued_splitter np c df cells Hc). intros Hout.
  by apply (splitter_report_holds np Hnp _ _ _ (multi_valued_column_ne c)) in Hout
    as [_ ?].
Qed.

Lemma C7_witness :
  splitter_order stable_kernels "artist_name" [Str "A|B"; Str "B"]
    (mkDF 2 [("artist_name", [Str "B"; Str "A"]); ("count", [Int 2; Int 1])]).
Proof.
  apply (C7_splitter_rows_by_descending_count stable_kernels Artist_name
           df_two_artists [Str "A|B"; Str "B"] _ stable_kernels_spec);
    reflexivity.
Defined.

(** ** C1: the categorical distribution *)

(** The two uses of the categorical reducer. *)
Inductive categorical : Type := Gender | Work_type.

Definition categorical_column (c : categorical) : string :=
  match c with Gender => "gender" | Work_type => "work_type" end.

Definition categorical_reducer (np : kernels) (c : categorical)
  : DataFrame → result DataFrame :=
  match c with
  | Gender => analyze_gender np
  | Work_type => analyze_work_types np
  end.

(** The sum of an integer column. *)
Definition sum_ints (l : list value) : Z :=
  foldr (λ v acc, match v with Int z => z + acc | _ => acc end)%Z 0%Z l.

(** What the specification says of the report on the cells of a categorical
    column of a table of [total] records. *)
Definition distribution_report (label : string) (cells : list value) (total : nat)
    (out : DataFrame) : Prop :=
  Pd.columns out = [label; "count"; "percentage"]
  ∧ NoDup (Pd.column out label)
  ∧ (∀ v, v ∈ Pd.column out label ↔ v ∈ cells)
  ∧ (∀ (i : nat) (v : value),
       Pd.column out label !! i = Some v →
       let count := Z.of_nat (occurrences v cells) in
       Pd.column out "count" !! i = Some (Int count)
       ∧ Pd.column out "percentage" !! i
         = Some (flt (Np.round2
                        (PrimFloat.mul
                           (PrimFloat.div (Np.of_int count)
                                          (Np.of_int (Z.of_nat total))) 100))))
  ∧ sum_ints (Pd.column out "count") = Z.of_nat (length cells).

Section Distribution.
Variable np : kernels.
Hypothesis Hnp : argsort_spec np.

Definition count_of (kn : value * nat) : Z := Z.of_nat kn.2.

Definition distribution_rows (cells : list value) : list (value * nat) :=
  let items := Pd.value_counts_arraylike false cells in
  Pd.take (Pd.nargsort np false (Int ∘ count_of <$> items)) items.

Lemma value_counts_rows (cells : list value) :
  Pd.value_counts np false cells
  = (λ kn, (kn.1, Int (count_of kn))) <$> distribution_rows cells.
Proof.
  unfold Pd.value_counts, Pd.series_sort_values, distribution_rows.
  rewrite take_fmap. f_equal. by rewrite <- list_fmap_compose.
Qed.

Lemma distribution_rows_perm (cells : list value) :
  distribution_rows cells ≡ₚ Counter cells.
Proof. apply (sort_rows_desc np Hnp count_of). Qed.

Definition distribution_frame (label : string) (total : nat) (cells : list value)
  : DataFrame :=
  let rows := distribution_rows cells in
  mkDF (length rows)
    [(label, rows.*1);
     ("count", Int ∘ count_of <$> rows);
     ("percentage", percentage total ∘ Int ∘ count_of <$> rows)].

Lemma categorical_reducer_Ok (c : categorical) (df : DataFrame) (cells : list value) :
  Pd.getitem df (categorical_column c) = Ok cells →
  categorical_reducer np c df
  = Ok (distribution_frame (categorical_column c) (nrows df) cells).
Proof.
  intros Hc. destruct c; simpl in Hc |- *.
  - unfold analyze_gender. rewrite Hc. simpl mbind. rewrite value_counts_rows.
    unfold Pd.reset_index, Pd.getitem, Pd.assign, distribution_frame, Pd.len.
    cbn [cols nrows assoc dict_set]. repeat case_decide; try done.
    simpl mbind. cbn [cols nrows assoc dict_set]. repeat case_decide; try done.
    by rewrite length_fmap, <- !list_fmap_compose.
  - unfold analyze_work_types. rewrite Hc. simpl mbind. rewrite value_counts_rows.
    unfold Pd.reset_index, Pd.getitem, Pd.assign, distribution_frame, Pd.len.
    cbn [cols nrows assoc dict_set]. repeat case_decide; try done.
    simpl mbind. cbn [cols nrows assoc dict_set]. repeat case_decide; try done.
    by rewrite length_fmap, <- !list_fmap_compose.
Qed.

Lemma sum_ints_counts (rows : list (value * nat)) :
  sum_ints (Int ∘ count_of <$> rows) = Z.of_nat (sum_list rows.*2).
Proof.
  induction rows as [|[v n] rows IH]; [done|].
  rewrite !fmap_cons. simpl in *. rewrite IH. unfold count_of. simpl. lia.
Qed.

Lemma distribution_frame_report (label : string) (total : nat) (cells : list value) :
  label ≠ "count" → label ≠ "percentage" →
  distribution_report label cells total (distribution_frame label total cells).
Proof.
  intros Hl1 Hl2. pose proof (distribution_rows_perm cells) as Hperm.
  unfold distribution_report, distribution_frame, Pd.columns, Pd.column.
  cbn [cols assoc fmap list_fmap fst].
  repeat case_decide; try congruence. unfold default, from_option, id.
  split_and!.
  - done.
  - rewrite Hperm. apply Counter_NoDup.
  - intros v. rewrite Hperm. apply Counter_keys.
  - intros i v Hv. rewrite list_lookup_fmap in Hv.
    destruct (distribution_rows cells !! i) as [[v' n]|] eqn:Hi; simplify_eq/=.
    assert (Hin : (v, n) ∈ Counter cells).
    { rewrite <- Hperm. by apply list_elem_of_lookup_2 in Hi. }
    apply Counter_elem in Hin as [_ ->].
    rewrite !list_lookup_fmap, Hi. done.
  - rewrite sum_ints_counts, Hperm, Counter_sum. done.
Qed.

End Distribution.

(** C1.  For the column [gender] (with [analyze_gender]) and the column
    [work_type] (with [analyze_work_types]) of any table: the report has one
    row per distinct value of the column, the missing marker being a value
    like any other; the count of a row is the number of records with that
    value; its percentage is [count / total * 100] rounded to two decimals
    in [float64]; and the counts add up to the number of records. *)
Theorem C1_categorical_distribution (np : kernels) (c : categorical)
    (df : DataFrame) (cells : list value) :
  argsort_spec np →
  wf df →
  Pd.getitem df (categorical_column c) = Ok cells →
  ∃ out,
    categorical_reducer np c df = Ok out
    ∧ distribution_report (categorical_column c) cells (nrows df) out
    ∧ (NaN ∈ cells → NaN ∈ Pd.column out (categorical_column c))
    ∧ sum_ints (Pd.column out "count") = Z.of_nat (nrows df).
Proof.
  intros Hnp Hwf Hc. eexists. split; [by apply categorical_reducer_Ok|].
  assert (Hrep : distribution_report (categorical_column c) cells (nrows df)
                   (distribution_frame np (categorical_column c) (nrows df) cells))
    by (apply distribution_frame_report; [done | by destruct c..]).
  split; [done|]. destruct Hrep as (_ & _ & Hmem & _ & Hsum). split.
  - intros Hnan. by apply Hmem.
  - by rewrite Hsum, (wf_length df _ _ Hwf Hc).
Qed.
